(** * A string store with expiry: [datastructure/string.go]

    Shallow embedding of the Go package [datastructures] (type [StringStore]
    with its methods [Set], [Get], [Delete], [Increment], [Keys] and the body
    of the [backgroundCleanup] loop), and the properties of it that the
    specification states.

    Conventions of the embedding.
    - [s.data], a Go [map[string]stringEntry], is a [gmap string stringEntry].
    - Every method takes [s.mu] for its whole body, so a method call is one
      atomic step on the map; a method is a function in the state monad [M]
      over the store.  The lock itself is not modelled.
    - [time.Time] is the number of nanoseconds since Go's zero instant
      (January 1, year 1, 00:00:00 UTC), an unbounded [Z]; [time.Time{}] is
      [0].  Wall clock and monotonic clock are one time line.  Each call of
      [time.Now()] in a method body is an argument of the method, in the
      order of the calls.
    - Go's [int] is the 64-bit two's complement integer; [int_add] is its
      [+], with the wrap-around written out.
    - Go strings are byte strings: Rocq's [string]. *)

From Stdlib Require Import ZArith Lia.
From stdpp Require Import gmap strings list fin_maps.

Local Open Scope Z_scope.

(** ** Package [time] *)

Module time.

Abbreviation Time := Z (only parsing).
Abbreviation Duration := Z (only parsing).

(** [time.Time{}]: the zero instant. *)
Definition zero : Time := 0.

(** A [time.Duration] is an [int64] count of nanoseconds. *)
Definition is_Duration (d : Duration) : Prop := - 2 ^ 63 <= d < 2 ^ 63.

(** [t.IsZero()] *)
Definition IsZero (t : Time) : bool := t =? 0.

(** [t.After(u)]: [t] is strictly later than [u]. *)
Definition After (t u : Time) : bool := u <? t.

(** [t.Add(d)] *)
Definition Add (t : Time) (d : Duration) : Time := t + d.

(** January 1, 1970 UTC on this time line: 62135596800 seconds after the
    zero instant.  Every reading of a clock that is not set before 1970
    is later. *)
Definition unix_epoch : Time := 62135596800 * 10 ^ 9.

End time.

(** ** Go's [int] *)

Definition int_min : Z := - 2 ^ 63.
Definition int_max : Z := 2 ^ 63 - 1.

Definition is_int (z : Z) : Prop := int_min <= z <= int_max.

(** Reduction of a mathematical integer to the 64-bit two's complement
    range. *)
Definition int_wrap (z : Z) : Z := (z + 2 ^ 63) mod 2 ^ 64 - 2 ^ 63.

(** [a + b] on [int]. *)
Definition int_add (a b : Z) : Z := int_wrap (a + b).

(** ** Package [unicode/utf8] and [fmt]: what [Increment] uses *)

Module utf8.

Definition RuneError : Z := 65533.

Definition between (lo hi b : Z) : bool := (lo <=? b) && (b <=? hi).

(** Bytes of a Go string. *)
Fixpoint bytes (s : string) : list Z :=
  match s with
  | EmptyString => []
  | String a s' => Z.of_N (Ascii.N_of_ascii a) :: bytes s'
  end.

(** [utf8.DecodeRune]: the first rune of [p] and its width in bytes;
    [(RuneError, 1)] for an encoding that is invalid or cut short,
    [(RuneError, 0)] for no input. *)
Definition DecodeRune (p : list Z) : Z * nat :=
  match p with
  | [] => (RuneError, 0%nat)
  | p0 :: rest =>
    if p0 <? 128 then (p0, 1%nat)
    else if (p0 <? 194) || (244 <? p0) then (RuneError, 1%nat)
    else if p0 <? 224 then
      match rest with
      | b1 :: _ =>
        if between 128 191 b1
        then (Z.lor (Z.shiftl (Z.land p0 31) 6) (Z.land b1 63), 2%nat)
        else (RuneError, 1%nat)
      | _ => (RuneError, 1%nat)
      end
    else if p0 <? 240 then
      let lo := if p0 =? 224 then 160 else 128 in
      let hi := if p0 =? 237 then 159 else 191 in
      match rest with
      | b1 :: b2 :: _ =>
        if between lo hi b1 && between 128 191 b2
        then (Z.lor (Z.shiftl (Z.land p0 15) 12)
                (Z.lor (Z.shiftl (Z.land b1 63) 6) (Z.land b2 63)), 3%nat)
        else (RuneError, 1%nat)
      | _ => (RuneError, 1%nat)
      end
    else
      let lo := if p0 =? 240 then 144 else 128 in
      let hi := if p0 =? 244 then 143 else 191 in
      match rest with
      | b1 :: b2 :: b3 :: _ =>
        if between lo hi b1 && between 128 191 b2 && between 128 191 b3
        then (Z.lor (Z.shiftl (Z.land p0 7) 18)
                (Z.lor (Z.shiftl (Z.land b1 63) 12)
                   (Z.lor (Z.shiftl (Z.land b2 63) 6) (Z.land b3 63))),
              4%nat)
        else (RuneError, 1%nat)
      | _ => (RuneError, 1%nat)
      end
  end.

End utf8.

Module fmt.

(** The table [space] of [fmt/scan.go]. *)
Definition space : list (Z * Z) :=
  [ (0x0009, 0x000d); (0x0020, 0x0020); (0x0085, 0x0085); (0x00a0, 0x00a0);
    (0x1680, 0x1680); (0x2000, 0x200a); (0x2028, 0x2029); (0x202f, 0x202f);
    (0x205f, 0x205f); (0x3000, 0x3000) ].

Fixpoint in_ranges (tbl : list (Z * Z)) (rx : Z) : bool :=
  match tbl with
  | [] => false
  | (lo, hi) :: tbl' =>
    if rx <? lo then false
    else if rx <=? hi then true
    else in_ranges tbl' rx
  end.

(** [isSpace] *)
Definition isSpace (r : Z) : bool :=
  if 2 ^ 16 <=? r then false else in_ranges space r.

(** [SkipSpace] (a method of the scanner state) of a scanner made by [Sscanf] ([nlIsSpace] is
    false): the input left after the leading space, [None] for the error
    "unexpected newline".  A carriage return is space whether or not a
    newline follows it.  [fuel] bounds the number of runes skipped; the
    scanner's own bound of [2 ^ 30] runes of input is not modelled. *)
Fixpoint SkipSpace (fuel : nat) (p : list Z) : option (list Z) :=
  match fuel with
  | O => Some p
  | S fuel' =>
    match p with
    | [] => Some []
    | _ =>
      let '(r, size) := utf8.DecodeRune p in
      if r =? 10 then None
      else if isSpace r then SkipSpace fuel' (drop size p)
      else Some p
    end
  end.

Definition is_sign (b : Z) : bool := (b =? 43) || (b =? 45).
Definition is_digit (b : Z) : bool := (48 <=? b) && (b <=? 57).

(** [s.accept(sign)]: at most one sign goes to the token. *)
Definition accept_sign (p : list Z) : list Z * list Z :=
  match p with
  | b :: rest => if is_sign b then ([b], rest) else ([], p)
  | [] => ([], [])
  end.

(** The loop [for s.accept(digits) {}] of [scanNumber]: the longest run of
    decimal digits at the head of the input, and the rest. *)
Fixpoint accept_digits (p : list Z) : list Z * list Z :=
  match p with
  | b :: rest =>
    if is_digit b
    then let '(ds, q) := accept_digits rest in (b :: ds, q)
    else ([], p)
  | [] => ([], [])
  end.

(** Value of a run of decimal digits, most significant first. *)
Definition digits_value (ds : list Z) : Z :=
  fold_left (λ acc d, acc * 10 + (d - 48)) ds 0.

(** [strconv.ParseInt(tok, 10, 64)] on a token made of an optional sign
    and a non-empty run of digits: [None] is the range error. *)
Definition ParseInt (sg ds : list Z) : option Z :=
  let un := digits_value ds in
  let cutoff := 2 ^ 63 in
  match sg with
  | [45] => if cutoff <? un then None else Some (- un)
  | _ => if cutoff <=? un then None else Some un
  end.

(** [fmt.Sscanf(str, "%d", &v)] with [v] an [int]: [Some n] when the call
    returns a nil error, having stored [n] in [v]; [None] when it returns
    an error (no input, a newline in the leading space, no digit after the
    optional sign, an integer outside 64 bits).  Input after the digits is
    not read. *)
Definition Sscanf_d (str : string) : option Z :=
  let p := utf8.bytes str in
  match SkipSpace (length p) p with
  | None => None
  | Some p1 =>
    let '(sg, p2) := accept_sign p1 in
    let '(ds, _) := accept_digits p2 in
    match ds with
    | [] => None
    | _ => ParseInt sg ds
    end
  end.

Definition digit_char (d : Z) : Ascii.ascii := Ascii.ascii_of_N (Z.to_N (48 + d)).

(** The digit loop of [fmtInteger] in base 10: digits are written
    from the least significant one, each in front of the ones already
    written.  An unsigned 64-bit integer has at most 20 digits. *)
Fixpoint fmt_digits (fuel : nat) (u : Z) (acc : string) : string :=
  match fuel with
  | O => acc
  | S fuel' =>
    if u <? 10 then String (digit_char u) acc
    else fmt_digits fuel' (u / 10) (String (digit_char (u mod 10)) acc)
  end.

(** [fmt.Sprintf("%d", n)] with [n] an [int]. *)
Definition Sprintf_d (n : Z) : string :=
  let ds := fmt_digits 20 (Z.abs n) EmptyString in
  if n <? 0 then String (Ascii.ascii_of_N 45) ds else ds.

(** The [error] values of this package: [fmt.Errorf(msg)] without verbs. *)
Inductive error : Type := Errorf (msg : string).

End fmt.

(** ** The store *)

(** [stringEntry]: a string value with its metadata. *)
Record stringEntry : Type := {
  value : string;
  createdAt : time.Time;
  expiresAt : time.Time;
}.

(** The zero value of [stringEntry], which indexing a map gives for a key
    that is not there. *)
Definition stringEntry_zero : stringEntry :=
  {| value := ""; createdAt := time.zero; expiresAt := time.zero |}.

(** [StringStore]; the field [mu] is the lock every method holds. *)
Record StringStore : Type := {
  data : gmap string stringEntry;
}.

(** [NewStringStore]: the empty map.  The cleanup goroutine it starts is
    [backgroundCleanup] below. *)
Definition NewStringStore : StringStore := {| data := ∅ |}.

(** *** Methods as state transformers

    A method with receiver [s *StringStore] and result type [A] is a
    function from the store before the call to the result and the store
    after it. *)

Definition M (A : Type) : Type := StringStore → A * StringStore.

Definition ret {A} (a : A) : M A := λ s, (a, s).

Definition bind {A B} (m : M A) (k : A → M B) : M B :=
  λ s, let '(a, s') := m s in k a s'.

Notation "'let*' x ':=' m 'in' k" := (bind m (λ x, k))
  (at level 10, x pattern, m at level 100, k at level 200).

(** [entry, exists := s.data[key]] *)
Definition map_index (key : string) : M (stringEntry * bool) :=
  λ s, (match data s !! key with
        | Some entry => (entry, true)
        | None => (stringEntry_zero, false)
        end, s).

(** [s.data[key] = entry] *)
Definition map_assign (key : string) (entry : stringEntry) : M unit :=
  λ s, (tt, {| data := <[key := entry]> (data s) |}).

(** [delete(s.data, key)] *)
Definition map_delete (key : string) : M unit :=
  λ s, (tt, {| data := delete key (data s) |}).

(** The result and the final store of a method call. *)
Definition result {A} (r : A * StringStore) : A := fst r.
Definition store_after {A} (r : A * StringStore) : StringStore := snd r.

(** [Set] adds or updates a string value.  [now1] and [now2] are the two
    readings of the clock, for [createdAt] and for [expiresAt]; the result
    is the nil error. *)
Definition Set_ (now1 now2 : time.Time) (key value : string)
    (expiration : time.Duration) : M (option fmt.error) :=
  let entry := {| value := value;
                  createdAt := now1;
                  expiresAt := time.Add now2 expiration |} in
  let* _ := map_assign key entry in
  ret None.

(** [Get] retrieves a string value. *)
Definition Get (now : time.Time) (key : string) : M (string * bool) :=
  let* (entry, exists_) := map_index key in
  if negb exists_ then ret (""%string, false)
  else if time.After now (expiresAt entry) then ret (""%string, false)
  else ret (value entry, true).

(** [Delete] removes a key. *)
Definition Delete (key : string) : M bool :=
  let* (_, exists_) := map_index key in
  if exists_ then
    let* _ := map_delete key in
    ret true
  else ret false.

Definition err_non_numeric : fmt.error :=
  fmt.Errorf "cannot increment non-numeric value".

(** [Increment] increments a numeric string value.  The result is the pair
    of the [int] and the [error] ([None] is nil). *)
Definition Increment (now : time.Time) (key : string) (delta : Z)
    : M (Z * option fmt.error) :=
  let* (entry, exists_) := map_index key in
  if negb exists_ then
    let newValue := delta in
    let* _ := map_assign key {| value := fmt.Sprintf_d newValue;
                                createdAt := now;
                                expiresAt := time.zero |} in
    ret (newValue, None)
  else
    match fmt.Sscanf_d (value entry) with
    | None => ret (0, Some err_non_numeric)
    | Some currentValue =>
      let newValue := int_add currentValue delta in
      let* _ := map_assign key {| value := fmt.Sprintf_d newValue;
                                  createdAt := createdAt entry;
                                  expiresAt := expiresAt entry |} in
      ret (newValue, None)
    end.

(** One wake of [backgroundCleanup]: the body of its [for range ticker.C]
    loop, with [now] the reading of the clock.  The inner loop ranges over
    the entries of the map and deletes from the map it ranges over; an entry
    is deleted only when the loop is at it, so the loop reaches every entry
    that the map had when it started. *)
Definition cleanup_step (now : time.Time) (key : string) (entry : stringEntry)
    (m : gmap string stringEntry) : gmap string stringEntry :=
  if negb (time.IsZero (expiresAt entry)) && time.After now (expiresAt entry)
  then delete key m
  else m.

Definition cleanup_pass (now : time.Time) : M unit :=
  λ s, (tt, {| data := map_fold (cleanup_step now) (data s) (data s) |}).

(** [backgroundCleanup], for the ticks in [ticks]: one pass per tick, in
    order. *)
Fixpoint backgroundCleanup (ticks : list time.Time) : M unit :=
  match ticks with
  | [] => ret tt
  | now :: ticks' =>
    let* _ := cleanup_pass now in
    backgroundCleanup ticks'
  end.

(** [Keys] returns all current keys, in the order in which the loop meets
    them. *)
Definition Keys : M (list string) :=
  λ s, (map_fold (λ key _ keys, keys ++ [key]) [] (data s), s).

(** ** What the specification calls a base-10 integer *)

Module spec.

(** Follows the specification's words, "the stored value parses as a
    base-10 integer": the whole string is an optional sign and one or more
    decimal digits; the result is the integer it writes, of any size. *)
Definition parse_base10 (str : string) : option Z :=
  let '(sg, ds) := fmt.accept_sign (utf8.bytes str) in
  match ds with
  | [] => None
  | _ =>
    if forallb fmt.is_digit ds
    then Some (match sg with
               | [45] => - fmt.digits_value ds
               | _ => fmt.digits_value ds
               end)
    else None
  end.

Definition is_base10 (str : string) : bool :=
  match parse_base10 str with Some _ => true | None => false end.

(** "Live", in the specification's words: [expiresAt] is absent, or the
    current time is at most [expiresAt]. *)
Definition live (now : time.Time) (entry : stringEntry) : bool :=
  time.IsZero (expiresAt entry) || (now <=? expiresAt entry).

End spec.

(** ** Vocabulary of the further properties *)

(** The test of the cleanup loop on an entry:
    [!entry.expiresAt.IsZero() && now.After(entry.expiresAt)]. *)
Definition due (now : time.Time) (entry : stringEntry) : bool :=
  negb (time.IsZero (expiresAt entry)) && time.After now (expiresAt entry).

(** [k] space characters. *)
Fixpoint spaces (k : nat) : string :=
  match k with
  | O => EmptyString
  | S k' => String (Ascii.ascii_of_N 32) (spaces k')
  end.

(** The string is empty or starts with a byte that is not a decimal
    digit. *)
Definition no_leading_digit (str : string) : bool :=
  match utf8.bytes str with
  | [] => true
  | b :: _ => negb (fmt.is_digit b)
  end.

(** What [Increment] does with the entry it finds under its key, or with
    none: the result of the call and the entry it assigns, if any. *)
Definition Increment_outcome (now : time.Time) (delta : Z)
    (found : option stringEntry)
    : (Z * option fmt.error) * option stringEntry :=
  match found with
  | None =>
    ((delta, None),
     Some {| value := fmt.Sprintf_d delta; createdAt := now;
             expiresAt := time.zero |})
  | Some entry =>
    match fmt.Sscanf_d (value entry) with
    | None => ((0, Some err_non_numeric), None)
    | Some currentValue =>
      ((int_add currentValue delta, None),
       Some {| value := fmt.Sprintf_d (int_add currentValue delta);
               createdAt := createdAt entry;
               expiresAt := expiresAt entry |})
    end
  end.

(** ** Data for the examples *)

(** January 1, 2024, 00:00:00 UTC, and one hour in nanoseconds. *)
Definition t2024 : time.Time := time.unix_epoch + 1704067200 * 10 ^ 9.
Definition hour : time.Duration := 3600 * 10 ^ 9.

Definition entry_of (v : string) (created expires : time.Time) : stringEntry :=
  {| value := v; createdAt := created; expiresAt := expires |}.

Definition store_of (l : list (string * stringEntry)) : StringStore :=
  {| data := list_to_map l |}.

(** A store with one counter, ["n"], at 10, set at the start of 2024 for
    one hour. *)
Definition counter : StringStore :=
  store_of [("n"%string, entry_of "10" t2024 (t2024 + hour))].

(** ** Scanning and printing integers *)

Section Scan.

Example Sprintf_d_5 : fmt.Sprintf_d 5 = "5"%string.
Proof. reflexivity. Qed.

Example Sprintf_d_neg : fmt.Sprintf_d (-20) = "-20"%string.
Proof. reflexivity. Qed.

Example Sscanf_d_15 : fmt.Sscanf_d "15" = Some 15.
Proof. reflexivity. Qed.

Example Sscanf_d_abc : fmt.Sscanf_d "abc" = None.
Proof. reflexivity. Qed.

Example Sscanf_d_empty : fmt.Sscanf_d "" = None.
Proof. reflexivity. Qed.

Lemma isSpace_printable (r : Z) :
  33 <= r < 128 → fmt.isSpace r = false.
Proof.
  intros Hr. unfold fmt.isSpace.
  destruct (2 ^ 16 <=? r) eqn:E; [done|].
  unfold fmt.space; simpl.
  repeat (case_match; try done; try lia).
Qed.

Lemma SkipSpace_printable (fuel : nat) (b : Z) (p : list Z) :
  33 <= b < 128 → fmt.SkipSpace fuel (b :: p) = Some (b :: p).
Proof.
  intros Hb. destruct fuel as [|fuel]; [done|].
  cbn [fmt.SkipSpace utf8.DecodeRune].
  destruct (b <? 128) eqn:E; [|lia].
  destruct (b =? 10) eqn:E10; [lia|].
  by rewrite isSpace_printable.
Qed.

Lemma is_digit_range (b : Z) : fmt.is_digit b = true ↔ 48 <= b <= 57.
Proof. unfold fmt.is_digit. rewrite andb_true_iff. lia. Qed.

Lemma is_sign_cases (b : Z) : fmt.is_sign b = true ↔ b = 43 ∨ b = 45.
Proof. unfold fmt.is_sign. rewrite orb_true_iff. lia. Qed.

Lemma accept_digits_all (ds : list Z) :
  forallb fmt.is_digit ds = true → fmt.accept_digits ds = (ds, []).
Proof.
  induction ds as [|d ds IH]; [done|].
  cbn [forallb fmt.accept_digits]. intros [Hd Hds]%andb_true_iff.
  by rewrite Hd, IH.
Qed.

Lemma digits_value_nonneg_from (ds : list Z) (a : Z) :
  forallb fmt.is_digit ds = true → 0 <= a →
  0 <= fold_left (λ acc d, acc * 10 + (d - 48)) ds a.
Proof.
  revert a. induction ds as [|d ds IH]; intros a; cbn [forallb fold_left].
  - done.
  - intros [Hd Hds]%andb_true_iff Ha. apply IH; [done|].
    apply is_digit_range in Hd. lia.
Qed.

Lemma digits_value_nonneg (ds : list Z) :
  forallb fmt.is_digit ds = true → 0 <= fmt.digits_value ds.
Proof. intros H. by apply digits_value_nonneg_from. Qed.

(** On a string that is a base-10 integer in the specification's sense and
    fits an [int], the scan of the code gives the same integer. *)
Lemma Sscanf_d_parse_base10 (str : string) (n : Z) :
  spec.parse_base10 str = Some n → is_int n → fmt.Sscanf_d str = Some n.
Proof.
  unfold spec.parse_base10, fmt.Sscanf_d, is_int, int_min, int_max.
  destruct (utf8.bytes str) as [|b p] eqn:Ep; [done|].
  cbn [fmt.accept_sign length].
  destruct (fmt.is_sign b) eqn:Hs.
  - destruct p as [|d p]; [done|].
    destruct (forallb fmt.is_digit (d :: p)) eqn:Hall; [|done].
    intros [= <-] Hn.
    apply is_sign_cases in Hs.
    rewrite SkipSpace_printable by lia.
    cbn [fmt.accept_sign]. rewrite (proj2 (is_sign_cases b) Hs).
    rewrite accept_digits_all by done.
    pose proof (digits_value_nonneg _ Hall) as Hpos.
    unfold fmt.ParseInt.
    destruct Hs as [-> | ->].
    + destruct (2 ^ 63 <=? fmt.digits_value (d :: p)) eqn:E; [lia|done].
    + destruct (2 ^ 63 <? fmt.digits_value (d :: p)) eqn:E; [lia|done].
  - destruct (forallb fmt.is_digit (b :: p)) eqn:Hall; [|done].
    intros [= <-] Hn.
    assert (Hb : fmt.is_digit b = true)
      by (cbn [forallb] in Hall; by apply andb_true_iff in Hall as [? _]).
    apply is_digit_range in Hb.
    rewrite SkipSpace_printable by lia.
    cbn [fmt.accept_sign]. rewrite Hs.
    rewrite accept_digits_all by done.
    unfold fmt.ParseInt.
    destruct (2 ^ 63 <=? fmt.digits_value (b :: p)) eqn:E; [lia|done].
Qed.

Lemma bytes_digit_char (u : Z) (acc : string) :
  0 <= u < 10 →
  utf8.bytes (String (fmt.digit_char u) acc) = (48 + u) :: utf8.bytes acc.
Proof.
  intros Hu. cbn [utf8.bytes]. unfold fmt.digit_char.
  rewrite Ascii.N_ascii_embedding by lia. f_equal. lia.
Qed.

Lemma fmt_digits_S (fuel : nat) (u : Z) (acc : string) :
  fmt.fmt_digits (S fuel) u acc =
  if u <? 10 then String (fmt.digit_char u) acc
  else fmt.fmt_digits fuel (u / 10) (String (fmt.digit_char (u mod 10)) acc).
Proof. reflexivity. Qed.

(** The digit loop writes the decimal digits of [u] in front of what was
    written, given one unit of fuel per digit. *)
Lemma fmt_digits_bytes (fuel : nat) (u : Z) (acc : string) :
  0 <= u < 10 ^ Z.of_nat (S fuel) →
  ∃ ds, utf8.bytes (fmt.fmt_digits (S fuel) u acc) = ds ++ utf8.bytes acc
        ∧ ds ≠ []
        ∧ forallb fmt.is_digit ds = true
        ∧ ∀ a, fold_left (λ acc d, acc * 10 + (d - 48)) ds a
               = a * 10 ^ Z.of_nat (length ds) + u.
Proof.
  revert u acc. induction fuel as [|fuel IH]; intros u acc Hu.
  - change (10 ^ Z.of_nat 1) with 10 in Hu.
    cbn [fmt.fmt_digits]. destruct (u <? 10) eqn:E; [|lia].
    exists [48 + u]. rewrite bytes_digit_char by lia.
    repeat split; [done| |].
    + cbn. apply andb_true_iff. split; [|done]. apply is_digit_range. lia.
    + intros a. cbn. lia.
  - rewrite fmt_digits_S. destruct (u <? 10) eqn:E.
    + exists [48 + u]. rewrite bytes_digit_char by lia.
      repeat split; [done| |].
      * cbn. apply andb_true_iff. split; [|done]. apply is_digit_range. lia.
      * intros a. cbn. lia.
    + assert (Hdiv : 0 <= u / 10 < 10 ^ Z.of_nat (S fuel)).
      { rewrite (Nat2Z.inj_succ (S fuel)), Z.pow_succ_r in Hu by lia.
        split; [apply Z.div_pos; lia|].
        apply Z.div_lt_upper_bound; lia. }
      pose proof (Z.mod_pos_bound u 10 ltac:(lia)) as Hmod.
      destruct (IH (u / 10) (String (fmt.digit_char (u mod 10)) acc) Hdiv)
        as (ds & Hbytes & Hne & Hall & Hval).
      exists (ds ++ [48 + u mod 10]).
      rewrite Hbytes, bytes_digit_char by lia.
      repeat split.
      * by rewrite <- app_assoc.
      * by destruct ds.
      * rewrite forallb_app, Hall. cbn.
        apply andb_true_iff. split; [|done]. apply is_digit_range. lia.
      * intros a. rewrite fold_left_app, Hval, length_app. cbn [fold_left length].
        rewrite Nat2Z.inj_add. change (Z.of_nat 1) with 1.
        rewrite Z.pow_add_r, Z.pow_1_r by lia.
        pose proof (Z.div_mod u 10 ltac:(lia)). lia.
Qed.

(** What [Sprintf] prints for an [int] is a base-10 integer in the
    specification's sense, and it writes that [int]. *)
Lemma parse_base10_Sprintf_d (n : Z) :
  is_int n → spec.parse_base10 (fmt.Sprintf_d n) = Some n.
Proof.
  unfold is_int, int_min, int_max. intros Hn.
  assert (Hu : 0 <= Z.abs n < 10 ^ Z.of_nat 20) by (cbn; lia).
  destruct (fmt_digits_bytes 19 (Z.abs n) EmptyString Hu)
    as (ds & Hbytes & Hne & Hall & Hval).
  cbn [utf8.bytes] in Hbytes. rewrite app_nil_r in Hbytes.
  specialize (Hval 0). cbn [Z.mul] in Hval. rewrite Z.add_0_l in Hval.
  unfold spec.parse_base10, fmt.Sprintf_d.
  destruct (n <? 0) eqn:E.
  - cbn [utf8.bytes]. rewrite Hbytes.
    change (Z.of_N (Ascii.N_of_ascii (Ascii.ascii_of_N 45))) with 45.
    cbn [fmt.accept_sign]. change (fmt.is_sign 45) with true. cbn iota.
    destruct ds as [|d ds]; [done|]. rewrite Hall.
    unfold fmt.digits_value. rewrite Hval. f_equal. lia.
  - rewrite Hbytes.
    destruct ds as [|d ds]; [done|].
    assert (Hd : fmt.is_digit d = true)
      by (cbn [forallb] in Hall; by apply andb_true_iff in Hall as [? _]).
    cbn [fmt.accept_sign].
    assert (Hs : fmt.is_sign d = false).
    { apply is_digit_range in Hd. unfold fmt.is_sign.
      apply orb_false_iff. lia. }
    rewrite Hs, Hall. unfold fmt.digits_value. rewrite Hval. f_equal. lia.
Qed.

(** Scanning what was printed gives the integer back. *)
Lemma Sscanf_d_Sprintf_d (n : Z) :
  is_int n → fmt.Sscanf_d (fmt.Sprintf_d n) = Some n.
Proof.
  intros Hn. apply Sscanf_d_parse_base10; [|done].
  by apply parse_base10_Sprintf_d.
Qed.

(** The scan gives an [int]. *)
Lemma Sscanf_d_is_int (str : string) (n : Z) :
  fmt.Sscanf_d str = Some n → is_int n.
Proof.
  unfold fmt.Sscanf_d.
  destruct (fmt.SkipSpace _ _) as [p1|]; [|done].
  destruct (fmt.accept_sign p1) as [sg p2].
  destruct (fmt.accept_digits p2) as [ds q] eqn:Eds.
  assert (Hall : forallb fmt.is_digit ds = true).
  { clear -Eds. revert ds q Eds.
    induction p2 as [|b p2 IH]; intros ds q; cbn [fmt.accept_digits].
    - by intros [= <- <-].
    - destruct (fmt.is_digit b) eqn:Hb.
      + destruct (fmt.accept_digits p2) as [ds' q'].
        intros [= <- <-]. cbn. rewrite Hb. by apply (IH ds' q').
      + by intros [= <- <-]. }
  pose proof (digits_value_nonneg _ Hall) as Hpos.
  destruct ds as [|d ds]; [done|].
  unfold fmt.ParseInt, is_int, int_min, int_max.
  repeat case_match; intros [= <-]; lia.
Qed.

End Scan.

(** ** Addition on [int] *)

Lemma int_add_is_int (a b : Z) : is_int (int_add a b).
Proof.
  unfold is_int, int_add, int_wrap, int_min, int_max.
  pose proof (Z.mod_pos_bound (a + b + 2 ^ 63) (2 ^ 64) ltac:(lia)). lia.
Qed.



(** ** The methods, one equation each *)

Section Methods.

Implicit Types (s : StringStore) (key : string) (entry : stringEntry).
Implicit Types (now : time.Time) (delta : Z).

Lemma store_eta s : {| data := data s |} = s.
Proof. by destruct s. Qed.

Lemma Set_eq now1 now2 key v d s :
  Set_ now1 now2 key v d s =
  (None, {| data := <[key := {| value := v; createdAt := now1;
                                expiresAt := time.Add now2 d |}]> (data s) |}).
Proof. reflexivity. Qed.

Lemma Get_eq now key s :
  Get now key s =
  (match data s !! key with
   | Some entry =>
     if time.After now (expiresAt entry) then (""%string, false)
     else (value entry, true)
   | None => (""%string, false)
   end, s).
Proof.
  unfold Get, bind, map_index, ret.
  destruct (data s !! key) as [entry|]; [|done].
  cbn. by destruct (time.After now (expiresAt entry)).
Qed.

(** [Get] finds a value exactly when the key is in the map and the clock
    is not after the entry's [expiresAt]. *)
Lemma Get_found_iff now key s v :
  result (Get now key s) = (v, true)
  ↔ ∃ entry, data s !! key = Some entry ∧ now <= expiresAt entry
             ∧ value entry = v.
Proof.
  rewrite Get_eq. unfold result, time.After. cbn [fst]. split.
  - destruct (data s !! key) as [entry|]; [|done].
    destruct (expiresAt entry <? now) eqn:E; [done|].
    intros [= <-]. exists entry. repeat split. lia.
  - intros (entry & -> & Hle & <-).
    destruct (expiresAt entry <? now) eqn:E; [lia|done].
Qed.

Lemma Delete_eq key s :
  Delete key s =
  match data s !! key with
  | Some _ => (true, {| data := delete key (data s) |})
  | None => (false, s)
  end.
Proof.
  unfold Delete, bind, map_index, map_delete, ret.
  by destruct (data s !! key).
Qed.

Lemma Increment_absent now key delta s :
  data s !! key = None →
  Increment now key delta s =
  ((delta, None),
   {| data := <[key := {| value := fmt.Sprintf_d delta; createdAt := now;
                          expiresAt := time.zero |}]> (data s) |}).
Proof. intros H. unfold Increment, bind, map_index. by rewrite H. Qed.

Lemma Increment_scanned now key delta s entry n :
  data s !! key = Some entry →
  fmt.Sscanf_d (value entry) = Some n →
  Increment now key delta s =
  ((int_add n delta, None),
   {| data := <[key := {| value := fmt.Sprintf_d (int_add n delta);
                          createdAt := createdAt entry;
                          expiresAt := expiresAt entry |}]> (data s) |}).
Proof.
  intros H Hn. unfold Increment, bind, map_index. rewrite H. cbn.
  by rewrite Hn.
Qed.

Lemma Increment_not_scanned now key delta s entry :
  data s !! key = Some entry →
  fmt.Sscanf_d (value entry) = None →
  Increment now key delta s = ((0, Some err_non_numeric), s).
Proof.
  intros H Hn. unfold Increment, bind, map_index. rewrite H. cbn.
  by rewrite Hn.
Qed.

(** The loop of a cleanup pass over the entries of [m], deleting from
    [acc]: a key of [m] whose entry is due is gone, every other key is as
    it is in [acc]. *)
Lemma cleanup_fold_lookup now (m acc : gmap string stringEntry) key :
  map_fold (cleanup_step now) acc m !! key =
  match m !! key with
  | Some entry =>
    if negb (time.IsZero (expiresAt entry)) && time.After now (expiresAt entry)
    then None else acc !! key
  | None => acc !! key
  end.
Proof.
  revert key.
  apply (map_fold_weak_ind (λ r m, ∀ key, r !! key =
    match m !! key with
    | Some entry =>
      if negb (time.IsZero (expiresAt entry)) && time.After now (expiresAt entry)
      then None else acc !! key
    | None => acc !! key
    end)); clear m.
  - intros key. by rewrite lookup_empty.
  - intros i x m r Hi IH key. unfold cleanup_step.
    destruct (decide (i = key)) as [->|Hne].
    + rewrite lookup_insert_eq.
      destruct (negb (time.IsZero (expiresAt x)) && time.After now (expiresAt x)).
      * by rewrite lookup_delete_eq.
      * by rewrite IH, Hi.
    + rewrite lookup_insert_ne by done.
      destruct (negb (time.IsZero (expiresAt x)) && time.After now (expiresAt x)).
      * by rewrite lookup_delete_ne, IH.
      * by rewrite IH.
Qed.

Lemma Keys_fold (m : gmap string stringEntry) :
  let keys := map_fold (λ key (_ : stringEntry) keys, keys ++ [key]) [] m in
  (∀ key, key ∈ keys ↔ is_Some (m !! key)) ∧ NoDup keys
  ∧ length keys = size m.
Proof.
  cbv zeta.
  apply (map_fold_weak_ind (λ keys m,
    (∀ key, key ∈ keys ↔ is_Some (m !! key)) ∧ NoDup keys
    ∧ length keys = size m)); clear m.
  - split; [|split].
    + intros key. rewrite lookup_empty, elem_of_nil.
      split; [done|]. by intros [? ?].
    + constructor.
    + by rewrite map_size_empty.
  - intros i x m keys Hi (Hin & Hnd & Hlen). split; [|split].
    + intros key. rewrite elem_of_app, list_elem_of_singleton, Hin.
      destruct (decide (i = key)) as [->|Hne].
      * rewrite lookup_insert_eq. split; [by eexists | by right].
      * rewrite lookup_insert_ne by done.
        split; [intros [?| ->]; [done | congruence] | by left].
    + apply NoDup_app. split; [done|]. split; [|apply NoDup_singleton].
      intros key Hk ->%list_elem_of_singleton.
      apply Hin in Hk. rewrite Hi in Hk. by destruct Hk.
    + rewrite length_app, map_size_insert_None by done. cbn. lia.
Qed.

(** A run of [backgroundCleanup] over two stretches of ticks is the run
    over the first followed by the run over the second. *)
Lemma backgroundCleanup_app (ticks1 ticks2 : list Z) s :
  backgroundCleanup (ticks1 ++ ticks2) s
  = backgroundCleanup ticks2 (store_after (backgroundCleanup ticks1 s)).
Proof.
  revert s. induction ticks1 as [|now ticks1 IH]; intros s; [done|].
  cbn [app backgroundCleanup]. unfold bind.
  destruct (cleanup_pass now s) as [[] s1]. apply IH.
Qed.

(** Cleanup never adds a key and never changes an entry that it keeps. *)
Lemma backgroundCleanup_lookup (ticks : list Z) s key entry :
  data (store_after (backgroundCleanup ticks s)) !! key = Some entry →
  data s !! key = Some entry.
Proof.
  revert s. induction ticks as [|now ticks IH]; intros s; [done|].
  cbn [backgroundCleanup]. unfold bind.
  destruct (cleanup_pass now s) as [[] s1] eqn:E. intros H%IH.
  assert (Hs1 : s1 = store_after (cleanup_pass now s)) by by rewrite E.
  subst s1. unfold cleanup_pass, store_after in H. cbn [snd data] in H.
  rewrite cleanup_fold_lookup in H.
  destruct (data s !! key) as [entry'|]; [|done].
  by destruct (negb (time.IsZero (expiresAt entry'))
               && time.After now (expiresAt entry')).
Qed.

End Methods.

(** ** Properties of the store *)

Section Properties.

Implicit Types (s : StringStore) (key : string) (entry : stringEntry).
Implicit Types (now : time.Time) (delta : Z).

(** Claim C1.  For a key that is not in the map, [Increment] returns
    [delta] with a nil error and stores the decimal string of [delta] with
    the zero [expiresAt], the mark of no expiration.  [Get] then compares
    the clock with that zero instant without asking [IsZero] first, so at
    every reading of the clock after the zero instant it answers that the
    key is not there: the entry the specification calls live for ever is
    never returned. *)
Theorem Increment_create_Get_not_found now now' key delta s :
  data s !! key = None →
  is_int delta →
  time.zero < now' →
  let r := Increment now key delta s in
  result r = (delta, None)
  ∧ data (store_after r) !! key
    = Some {| value := fmt.Sprintf_d delta; createdAt := now;
              expiresAt := time.zero |}
  ∧ spec.parse_base10 (fmt.Sprintf_d delta) = Some delta
  ∧ result (Get now' key (store_after r)) = (""%string, false).
Proof.
  intros Habs Hint Hnow r. subst r.
  rewrite Increment_absent by done. unfold result, store_after. cbn [fst snd].
  rewrite Get_eq. cbn [fst data]. rewrite lookup_insert_eq. cbn [expiresAt].
  repeat split; [by apply parse_base10_Sprintf_d|].
  unfold time.After, time.zero in *.
  destruct (0 <? now') eqn:E; [done|lia].
Qed.

(** Claim C2, as the code has it.  [Set] has one rule for every duration:
    [expiresAt] is the reading of the clock plus the duration.  With a
    clock that is not set before 1970 no duration gives the zero
    [expiresAt], and whatever the duration the entry is not returned by
    [Get] once the clock is past [expiresAt].  With the duration zero,
    [expiresAt] is the reading of the clock. *)
Theorem Set_expiresAt_is_deadline now1 now2 key v d s :
  time.is_Duration d →
  time.unix_epoch <= now2 →
  let s' := store_after (Set_ now1 now2 key v d s) in
  data s' !! key = Some {| value := v; createdAt := now1;
                           expiresAt := now2 + d |}
  ∧ now2 + d ≠ time.zero
  ∧ (∀ now, result (Get now key s')
            = if now2 + d <? now then (""%string, false) else (v, true))
  ∧ data (store_after (Set_ now1 now2 key v 0 s)) !! key
    = Some {| value := v; createdAt := now1; expiresAt := now2 |}.
Proof.
  intros Hd Hnow s'. subst s'. rewrite !Set_eq.
  unfold store_after, time.Add. cbn [snd data].
  rewrite !lookup_insert_eq, Z.add_0_r.
  split; [done|]. split; [|split; [|done]].
  - unfold time.is_Duration, time.unix_epoch, time.zero in *. lia.
  - intros now. rewrite Get_eq. unfold result. cbn [fst data].
    rewrite lookup_insert_eq. cbn [expiresAt value]. unfold time.After.
    by destruct (now2 + d <? now).
Qed.

(** The failing path of [Increment].  For a key that is in the map: when
    [Sscanf] with the verb [%d] fails on the stored value, [Increment]
    returns [0] with its error and the store is the store before the call,
    so that [Get] returns the old value at every reading of the clock that
    is not after the entry's [expiresAt], and nothing after it; when the
    stored value is a base-10 integer that fits an [int], the error is nil. *)
Theorem Increment_error_when_scan_fails now now' key delta s entry :
  data s !! key = Some entry →
  let r := Increment now key delta s in
  (fmt.Sscanf_d (value entry) = None →
   r = ((0, Some err_non_numeric), s)
   ∧ result (Get now' key (store_after r))
     = if now' <=? expiresAt entry then (value entry, true)
       else (""%string, false))
  ∧ (∀ n, spec.parse_base10 (value entry) = Some n → is_int n →
          snd (result r) = None).
Proof.
  intros Hin r. subst r. split.
  - intros En. rewrite (Increment_not_scanned _ _ _ _ _ Hin En).
    unfold result, store_after. cbn [fst snd].
    split; [done|]. rewrite Get_eq, Hin. cbn [fst]. unfold time.After.
    destruct (expiresAt entry <? now') eqn:E1;
      destruct (now' <=? expiresAt entry) eqn:E2; try done; lia.
  - intros n Hn Hint. apply Sscanf_d_parse_base10 in Hn; [|done].
    by rewrite (Increment_scanned _ _ _ _ _ _ Hin Hn).
Qed.

(** Claim C4.  [Get] leaves the store as it is and returns the value of
    an entry exactly when the clock is not after the entry's [expiresAt];
    it has no case for the zero [expiresAt].  An entry with the zero
    [expiresAt], live in the specification's sense at every time, is
    reported as not found at every reading of the clock after the zero
    instant. *)
Theorem Get_zero_expiresAt_not_found now key s entry :
  data s !! key = Some entry →
  expiresAt entry = time.zero →
  time.zero < now →
  spec.live now entry = true
  ∧ Get now key s = ((""%string, false), s).
Proof.
  intros Hin Hz Hnow. split.
  - unfold spec.live. by rewrite Hz.
  - rewrite Get_eq, Hin, Hz. unfold time.After, time.zero in *.
    destruct (0 <? now) eqn:E; [done|lia].
Qed.

(** Claim C5.  After [Set] with a positive duration, [Get] of the same
    key at a reading of the clock that is not after the deadline returns
    the value that was set. *)
Theorem Set_Get_round_trip now1 now2 now key v ttl s :
  0 < ttl →
  now <= time.Add now2 ttl →
  result (Get now key (store_after (Set_ now1 now2 key v ttl s)))
  = (v, true).
Proof.
  intros _ Hnow. rewrite Set_eq, Get_eq. unfold result, store_after.
  cbn [fst snd data]. rewrite lookup_insert_eq. cbn [expiresAt value].
  unfold time.After. destruct (time.Add now2 ttl <? now) eqn:E; [lia|done].
Qed.


(** Claim C7.  After one cleanup pass a key of the map is gone exactly
    when its entry had a non-zero [expiresAt] that the clock was after;
    every other entry is in the map as it was, and no key is added. *)
Theorem cleanup_pass_removes_exactly_due now s key :
  data (store_after (cleanup_pass now s)) !! key =
  match data s !! key with
  | Some entry =>
    if negb (time.IsZero (expiresAt entry)) && time.After now (expiresAt entry)
    then None else Some entry
  | None => None
  end.
Proof.
  unfold cleanup_pass, store_after. cbn [snd data].
  rewrite cleanup_fold_lookup.
  destruct (data s !! key) as [entry|] eqn:E; [|done].
  by destruct (negb (time.IsZero (expiresAt entry))
               && time.After now (expiresAt entry)).
Qed.

(** Claim C8.  [Keys] returns each key of the map once and nothing else,
    whatever the [expiresAt] of its entry and whatever the clock, and
    leaves the store as it is. *)
Theorem Keys_all_stored s :
  (∀ key, key ∈ result (Keys s) ↔ is_Some (data s !! key))
  ∧ NoDup (result (Keys s))
  ∧ length (result (Keys s)) = size (data s)
  ∧ store_after (Keys s) = s.
Proof.
  unfold Keys, result, store_after. cbn [fst snd].
  destruct (Keys_fold (data s)) as (H1 & H2 & H3). done.
Qed.

(** Claim C9.  [Delete] of a key that is in the map, expired or not,
    removes it and returns true; of a key that is not in the map, it
    returns false and the store is as before.  In both cases [Get] of the
    key afterwards finds nothing. *)
Theorem Delete_removes key s :
  Delete key s =
    match data s !! key with
    | Some _ => (true, {| data := delete key (data s) |})
    | None => (false, s)
    end
  ∧ data (store_after (Delete key s)) !! key = None
  ∧ ∀ now, result (Get now key (store_after (Delete key s)))
           = (""%string, false).
Proof.
  split; [apply Delete_eq|].
  assert (H : data (store_after (Delete key s)) !! key = None).
  { rewrite Delete_eq. unfold store_after.
    destruct (data s !! key) eqn:E; cbn [snd data]; [|done].
    apply lookup_delete_eq. }
  split; [done|]. intros now. by rewrite Get_eq, H.
Qed.

(** Claim C10.  [Set], [Delete] and [Increment] of a key leave the entry
    of every other key, or its absence, as it was. *)
Theorem other_key_untouched now1 now2 key key' v d delta s :
  key ≠ key' →
  data (store_after (Set_ now1 now2 key v d s)) !! key' = data s !! key'
  ∧ data (store_after (Delete key s)) !! key' = data s !! key'
  ∧ data (store_after (Increment now1 key delta s)) !! key' = data s !! key'.
Proof.
  intros Hne. unfold store_after. split; [|split].
  - rewrite Set_eq. cbn [snd data]. by rewrite lookup_insert_ne.
  - rewrite Delete_eq. destruct (data s !! key); cbn [snd data]; [|done].
    by rewrite lookup_delete_ne.
  - destruct (data s !! key) as [entry|] eqn:E.
    + destruct (fmt.Sscanf_d (value entry)) as [n|] eqn:En.
      * rewrite (Increment_scanned _ _ _ _ _ _ E En). cbn [snd data].
        by rewrite lookup_insert_ne.
      * by rewrite (Increment_not_scanned _ _ _ _ _ E En).
    + rewrite Increment_absent by done. cbn [snd data].
      by rewrite lookup_insert_ne.
Qed.

End Properties.

(** ** The properties at concrete stores *)

Section Examples.

(** [Increment("missing", 5)] on the new store returns 5; an hour later
    [Get("missing")] finds nothing. *)
Lemma Increment_create_Get_not_found_witness :
  data NewStringStore !! "missing"%string = None
  ∧ is_int 5
  ∧ time.zero < t2024 + hour
  ∧ result (Increment t2024 "missing" 5 NewStringStore) = (5, None)
  ∧ result (Get (t2024 + hour) "missing"
              (store_after (Increment t2024 "missing" 5 NewStringStore)))
    = (""%string, false).
Proof.
  assert (H1 : data NewStringStore !! "missing"%string = None) by reflexivity.
  assert (H2 : is_int 5) by (unfold is_int, int_min, int_max; lia).
  assert (H3 : time.zero < t2024 + hour) by reflexivity.
  destruct (Increment_create_Get_not_found t2024 (t2024 + hour)
              "missing" 5 NewStringStore H1 H2 H3) as (R & _ & _ & G).
  exact (conj H1 (conj H2 (conj H3 (conj R G)))).
Defined.

(** No duration makes [Set] store the zero [expiresAt], and none makes an
    entry that [Get] returns at every later time. *)
Lemma Set_no_sentinel_duration :
  ¬ ∃ d, time.is_Duration d
         ∧ let s' := store_after (Set_ t2024 t2024 "k" "v" d NewStringStore) in
           (∃ entry, data s' !! "k"%string = Some entry
                     ∧ expiresAt entry = time.zero)
           ∨ (∀ now, t2024 <= now →
                     result (Get now "k" s') = ("v"%string, true)).
Proof.
  intros (d & Hd & H). cbv zeta in H. rewrite Set_eq in H.
  unfold store_after in H. cbn [snd data] in H.
  unfold time.is_Duration in Hd.
  destruct H as [(entry & Hin & Hz) | Hall].
  - rewrite lookup_insert_eq in Hin. injection Hin as <-. cbn in Hz.
    unfold time.Add, time.zero, t2024, time.unix_epoch in Hz. lia.
  - specialize (Hall (Z.max t2024 (t2024 + d + 1)) ltac:(lia)).
    rewrite Get_eq in Hall. unfold result in Hall. cbn [fst data] in Hall.
    rewrite lookup_insert_eq in Hall. cbn [expiresAt value] in Hall.
    unfold time.After, time.Add in Hall.
    destruct (t2024 + d <? Z.max t2024 (t2024 + d + 1)) eqn:E; [done|lia].
Qed.

Lemma Set_expiresAt_is_deadline_witness :
  time.is_Duration hour
  ∧ time.unix_epoch <= t2024
  ∧ data (store_after (Set_ t2024 t2024 "k" "v" hour NewStringStore))
      !! "k"%string
    = Some (entry_of "v" t2024 (t2024 + hour))
  ∧ result (Get (t2024 + hour + 1) "k"
              (store_after (Set_ t2024 t2024 "k" "v" hour NewStringStore)))
    = (""%string, false).
Proof.
  assert (H1 : time.is_Duration hour)
    by (unfold time.is_Duration, hour; lia).
  assert (H2 : time.unix_epoch <= t2024)
    by (unfold t2024, time.unix_epoch; lia).
  destruct (Set_expiresAt_is_deadline t2024 t2024 "k" "v" hour
              NewStringStore H1 H2) as (L & _ & G & _).
  exact (conj H1 (conj H2 (conj L (G (t2024 + hour + 1))))).
Defined.

(** A stored ["12abc"] is not a base-10 integer, and [Increment] by one
    makes it ["13"] without an error.  A stored ["abc"] whose deadline has
    passed makes [Increment] fail and stays in the store, and [Get] does
    not return it. *)
Lemma Increment_accepts_trailing_text :
  let s1 := store_of [("s"%string, entry_of "12abc" t2024 (t2024 + hour))] in
  let s2 := store_of [("s"%string, entry_of "abc" t2024 (t2024 + hour))] in
  (spec.is_base10 "12abc" = false
   ∧ result (Increment t2024 "s" 1 s1) = (13, None)
   ∧ data (store_after (Increment t2024 "s" 1 s1)) !! "s"%string
     = Some (entry_of "13" t2024 (t2024 + hour)))
  ∧ (spec.is_base10 "abc" = false
     ∧ Increment (t2024 + 2 * hour) "s" 1 s2 = ((0, Some err_non_numeric), s2)
     ∧ result (Get (t2024 + 2 * hour) "s" s2) = (""%string, false)).
Proof. cbv zeta. repeat split; vm_compute; reflexivity. Qed.

Lemma Increment_error_when_scan_fails_witness :
  let s := store_of [("s"%string, entry_of "abc" t2024 (t2024 + hour))] in
  data s !! "s"%string = Some (entry_of "abc" t2024 (t2024 + hour))
  ∧ Increment t2024 "s" 1 s = ((0, Some err_non_numeric), s)
  ∧ result (Get (t2024 + 1) "s" (store_after (Increment t2024 "s" 1 s)))
    = ("abc"%string, true).
Proof.
  cbv zeta.
  set (s := store_of [("s"%string, entry_of "abc" t2024 (t2024 + hour))]).
  assert (H : data s !! "s"%string
              = Some (entry_of "abc" t2024 (t2024 + hour))) by reflexivity.
  split; [exact H|].
  exact (proj1 (Increment_error_when_scan_fails t2024 (t2024 + 1) "s" 1 s
                  (entry_of "abc" t2024 (t2024 + hour)) H) eq_refl).
Defined.

(** The entry that [Increment] made for a missing key. *)
Lemma Get_zero_expiresAt_not_found_witness :
  let s := store_of [("missing"%string, entry_of "5" t2024 time.zero)] in
  data s !! "missing"%string = Some (entry_of "5" t2024 time.zero)
  ∧ expiresAt (entry_of "5" t2024 time.zero) = time.zero
  ∧ time.zero < t2024 + 1
  ∧ spec.live (t2024 + 1) (entry_of "5" t2024 time.zero) = true
  ∧ Get (t2024 + 1) "missing" s = ((""%string, false), s).
Proof.
  cbv zeta.
  set (s := store_of [("missing"%string, entry_of "5" t2024 time.zero)]).
  assert (H1 : data s !! "missing"%string
               = Some (entry_of "5" t2024 time.zero)) by reflexivity.
  assert (H2 : expiresAt (entry_of "5" t2024 time.zero) = time.zero)
    by reflexivity.
  assert (H3 : time.zero < t2024 + 1) by reflexivity.
  split; [exact H1|]. split; [exact H2|]. split; [exact H3|].
  exact (Get_zero_expiresAt_not_found (t2024 + 1) "missing" s _ H1 H2 H3).
Defined.

Lemma Set_Get_round_trip_witness :
  0 < hour
  ∧ t2024 + 1 <= time.Add t2024 hour
  ∧ result (Get (t2024 + 1) "k"
              (store_after (Set_ t2024 t2024 "k" "v" hour NewStringStore)))
    = ("v"%string, true).
Proof.
  assert (H1 : 0 < hour) by reflexivity.
  assert (H2 : t2024 + 1 <= time.Add t2024 hour)
    by (unfold time.Add, hour; lia).
  split; [exact H1|]. split; [exact H2|].
  exact (Set_Get_round_trip t2024 t2024 (t2024 + 1) "k" "v" hour
           NewStringStore H1 H2).
Defined.


Lemma other_key_untouched_witness :
  let s := store_of [("a"%string, entry_of "1" t2024 (t2024 + hour));
                     ("b"%string, entry_of "x" t2024 (t2024 + hour))] in
  "a"%string ≠ "b"%string
  ∧ data (store_after (Set_ t2024 t2024 "a" "v" hour s)) !! "b"%string
    = data s !! "b"%string
  ∧ data (store_after (Delete "a" s)) !! "b"%string = data s !! "b"%string
  ∧ data (store_after (Increment t2024 "a" 7 s)) !! "b"%string
    = data s !! "b"%string.
Proof.
  cbv zeta.
  assert (H : "a"%string ≠ "b"%string) by discriminate.
  split; [exact H|].
  exact (other_key_untouched t2024 t2024 "a" "b" "v" hour 7 _ H).
Defined.

(** [Increment-accumulate] of the specification's tests. *)
Example Increment_accumulate :
  let s0 := store_after (Set_ t2024 t2024 "n" "10" hour NewStringStore) in
  let r1 := Increment t2024 "n" 5 s0 in
  let r2 := Increment t2024 "n" (-20) (store_after r1) in
  result r1 = (15, None) ∧ result r2 = (-5, None)
  ∧ result (Get (t2024 + 1) "n" (store_after r2)) = ("-5"%string, true).
Proof. cbv zeta. repeat split; vm_compute; reflexivity. Qed.

(** After its deadline a key is still among [Keys] until a cleanup pass,
    though [Get] no longer returns it. *)
Example expired_key_listed_until_cleanup :
  let s := store_after (Set_ t2024 t2024 "k" "v" hour NewStringStore) in
  let later := t2024 + 2 * hour in
  result (Get later "k" s) = (""%string, false)
  ∧ result (Keys s) = ["k"%string]
  ∧ result (Keys (store_after (cleanup_pass later s))) = [].
Proof. cbv zeta. repeat split; vm_compute; reflexivity. Qed.

End Examples.

(** ** Further properties: what [Increment] reads and writes *)

Section Reading.

Lemma bytes_app (s1 s2 : string) :
  utf8.bytes (s1 +:+ s2) = utf8.bytes s1 ++ utf8.bytes s2.
Proof. induction s1 as [|a s1 IH]; [done|]. cbn. by rewrite <- IH. Qed.

Lemma bytes_spaces (k : nat) : utf8.bytes (spaces k) = replicate k 32.
Proof. induction k as [|k IH]; [done|]. cbn. by rewrite <- IH. Qed.

Lemma SkipSpace_spaces (k fuel : nat) (b : Z) (q : list Z) :
  33 <= b < 128 →
  fmt.SkipSpace (k + S fuel) (replicate k 32 ++ b :: q) = Some (b :: q).
Proof.
  intros Hb. induction k as [|k IH].
  - by apply SkipSpace_printable.
  - cbn [Nat.add replicate app fmt.SkipSpace utf8.DecodeRune].
    exact IH.
Qed.

Lemma accept_digits_app (ds rest : list Z) :
  forallb fmt.is_digit ds = true →
  match rest with [] => true | b :: _ => negb (fmt.is_digit b) end = true →
  fmt.accept_digits (ds ++ rest) = (ds, rest).
Proof.
  intros Hds Hrest. induction ds as [|d ds IH].
  - destruct rest as [|b rest]; [done|]. cbn.
    by apply negb_true_iff in Hrest as ->.
  - cbn [forallb] in Hds. apply andb_true_iff in Hds as [Hd Hds].
    cbn [app fmt.accept_digits]. by rewrite Hd, IH.
Qed.

(** The scan of blanks, a base-10 integer and text that does not go on
    with a digit: the integer when it fits an [int], an error when not. *)
Lemma Sscanf_d_numeral (k : nat) (num rest : string) (n : Z) :
  spec.parse_base10 num = Some n →
  no_leading_digit rest = true →
  fmt.Sscanf_d (spaces k +:+ num +:+ rest)
  = if decide (is_int n) then Some n else None.
Proof.
  unfold spec.parse_base10, fmt.Sscanf_d, no_leading_digit.
  rewrite !bytes_app, bytes_spaces.
  intros Hnum Hrest.
  destruct (utf8.bytes num) as [|b p] eqn:Ep; [done|].
  assert (Hlen : length (replicate k 32 ++ (b :: p) ++ utf8.bytes rest)
                 = (k + S (length (p ++ utf8.bytes rest)))%nat).
  { rewrite length_app, length_replicate. done. }
  rewrite Hlen. clear Hlen. cbn [app].
  cbn [fmt.accept_sign] in Hnum.
  destruct (fmt.is_sign b) eqn:Hs.
  - destruct p as [|d p]; [done|].
    destruct (forallb fmt.is_digit (d :: p)) eqn:Hall; [|done].
    apply is_sign_cases in Hs.
    rewrite SkipSpace_spaces by lia.
    cbn [fmt.accept_sign]. rewrite (proj2 (is_sign_cases b) Hs).
    rewrite accept_digits_app by done.
    pose proof (digits_value_nonneg _ Hall) as Hpos.
    unfold fmt.ParseInt, is_int, int_min, int_max in *.
    destruct Hs as [-> | ->]; injection Hnum as <-.
    + destruct (2 ^ 63 <=? fmt.digits_value (d :: p)) eqn:E;
        case_decide; first [done | lia].
    + destruct (2 ^ 63 <? fmt.digits_value (d :: p)) eqn:E;
        case_decide; first [done | lia].
  - destruct (forallb fmt.is_digit (b :: p)) eqn:Hall; [|done].
    injection Hnum as <-.
    assert (Hb : fmt.is_digit b = true)
      by (cbn [forallb] in Hall; by apply andb_true_iff in Hall as [? _]).
    apply is_digit_range in Hb.
    rewrite SkipSpace_spaces by lia.
    cbn [fmt.accept_sign]. rewrite Hs.
    change (b :: p ++ utf8.bytes rest) with ((b :: p) ++ utf8.bytes rest).
    rewrite accept_digits_app by done.
    pose proof (digits_value_nonneg _ Hall) as Hpos.
    unfold fmt.ParseInt, is_int, int_min, int_max in *.
    destruct (2 ^ 63 <=? fmt.digits_value (b :: p)) eqn:E;
      case_decide; first [done | lia].
Qed.

Lemma Sscanf_d_bytes (s1 s2 : string) :
  utf8.bytes s1 = utf8.bytes s2 → fmt.Sscanf_d s1 = fmt.Sscanf_d s2.
Proof. unfold fmt.Sscanf_d. by intros ->. Qed.

(** A base-10 integer too large or too small for an [int] does not scan. *)
Lemma Sscanf_d_out_of_range (str : string) (n : Z) :
  spec.parse_base10 str = Some n → ¬ is_int n → fmt.Sscanf_d str = None.
Proof.
  intros Hn Hout.
  rewrite (Sscanf_d_bytes str (spaces 0 +:+ str +:+ "")).
  - rewrite (Sscanf_d_numeral 0 str "" n Hn eq_refl). by case_decide.
  - rewrite !bytes_app. cbn. by rewrite app_nil_r.
Qed.

End Reading.

(** ** Further properties: counting with [Increment] *)

Section Counting.

Implicit Types (s : StringStore) (key : string) (entry : stringEntry).
Implicit Types (now : time.Time) (delta : Z).

Lemma int_wrap_small (n : Z) : is_int n → int_wrap n = n.
Proof.
  unfold is_int, int_wrap, int_min, int_max. intros H.
  rewrite Z.mod_small by lia. lia.
Qed.

Lemma int_wrap_add_l (a b : Z) : int_wrap (int_wrap a + b) = int_wrap (a + b).
Proof.
  unfold int_wrap. f_equal.
  replace ((a + 2 ^ 63) `mod` 2 ^ 64 - 2 ^ 63 + b + 2 ^ 63)
    with ((a + 2 ^ 63) `mod` 2 ^ 64 + b) by lia.
  rewrite Zplus_mod_idemp_l. f_equal. lia.
Qed.

Lemma int_wrap_zero_multiple (x : Z) :
  int_wrap x = 0 → ∃ q, x = q * 2 ^ 64.
Proof.
  unfold int_wrap. intros H.
  exists ((x + 2 ^ 63) `div` 2 ^ 64).
  pose proof (Z.div_mod (x + 2 ^ 63) (2 ^ 64) ltac:(lia)). lia.
Qed.

(** The value that a successful [Increment] leaves under the key scans as
    the integer that the call returned. *)
Lemma Increment_stored_scans now key delta s v :
  is_int delta →
  result (Increment now key delta s) = (v, None) →
  ∃ entry, data (store_after (Increment now key delta s)) !! key = Some entry
           ∧ fmt.Sscanf_d (value entry) = Some v.
Proof.
  intros Hd. unfold result, store_after.
  destruct (data s !! key) as [entry|] eqn:E.
  - destruct (fmt.Sscanf_d (value entry)) as [n|] eqn:En.
    + rewrite (Increment_scanned _ _ _ _ _ _ E En). cbn [fst snd data].
      intros [= <-]. eexists. rewrite lookup_insert_eq. split; [done|].
      cbn [value]. apply Sscanf_d_Sprintf_d, int_add_is_int.
    + by rewrite (Increment_not_scanned _ _ _ _ _ E En).
  - rewrite Increment_absent by done. cbn [fst snd data].
    intros [= <-]. eexists. rewrite lookup_insert_eq. split; [done|].
    cbn [value]. by apply Sscanf_d_Sprintf_d.
Qed.

(** X1.  Increments accumulate: when [Increment] has returned [v] with a
    nil error, the next [Increment] of the key by [delta2] returns the
    [int] sum of [v] and [delta2] with a nil error, whether the first call
    made the entry or updated it. *)
Theorem Increment_accumulates now now' key delta1 delta2 s v :
  is_int delta1 →
  result (Increment now key delta1 s) = (v, None) →
  result (Increment now' key delta2 (store_after (Increment now key delta1 s)))
  = (int_add v delta2, None).
Proof.
  intros Hd Hr.
  destruct (Increment_stored_scans _ _ _ _ _ Hd Hr) as (entry & Hin & Hv).
  by rewrite (Increment_scanned _ _ _ _ _ _ Hin Hv).
Qed.

(** X2.  When the stored value is the decimal string of the [int] [n],
    an [Increment] by [delta] followed by an [Increment] by the [int]
    opposite of [delta] returns [n] and leaves the store exactly as it
    was before the two calls, also when the first sum overflowed. *)
Theorem Increment_then_back now now' key delta delta' s entry n :
  data s !! key = Some entry →
  value entry = fmt.Sprintf_d n →
  is_int n →
  int_add delta delta' = 0 →
  Increment now' key delta' (store_after (Increment now key delta s))
  = ((n, None), s).
Proof.
  intros Hin Hv Hn Hopp.
  assert (Hscan : fmt.Sscanf_d (value entry) = Some n)
    by (rewrite Hv; by apply Sscanf_d_Sprintf_d).
  rewrite (Increment_scanned _ _ _ _ _ _ Hin Hscan).
  unfold store_after. cbn [snd].
  erewrite Increment_scanned; cycle 1.
  { cbn [data]. apply lookup_insert_eq. }
  { cbn [value]. apply Sscanf_d_Sprintf_d, int_add_is_int. }
  assert (Hback : int_add (int_add n delta) delta' = n).
  { unfold int_add at 1 2. rewrite int_wrap_add_l.
    apply int_wrap_zero_multiple in Hopp as [q Hq].
    replace (n + delta + delta') with (n + q * 2 ^ 64) by lia.
    unfold int_wrap. replace (n + q * 2 ^ 64 + 2 ^ 63)
      with (n + 2 ^ 63 + q * 2 ^ 64) by lia.
    rewrite Z_mod_plus_full. by apply int_wrap_small. }
  rewrite Hback. cbn [data createdAt expiresAt].
  rewrite insert_insert_eq. f_equal.
  rewrite <- Hv. destruct entry as [v c e]. cbn [value createdAt expiresAt].
  rewrite insert_id by done. apply store_eta.
Qed.

(** X3.  [Increment] does not test for overflow: when the sum of the
    stored integer and [delta] is outside the range of [int], the call
    still returns a nil error, and the integer it returns and stores is the
    sum less [2 ^ 64] (overflow) or plus [2 ^ 64] (underflow). *)
Theorem Increment_overflow_wraps now key delta s entry n :
  data s !! key = Some entry →
  fmt.Sscanf_d (value entry) = Some n →
  is_int delta →
  ¬ is_int (n + delta) →
  let wrapped := if 0 <? delta then n + delta - 2 ^ 64
                 else n + delta + 2 ^ 64 in
  result (Increment now key delta s) = (wrapped, None)
  ∧ (value <$> data (store_after (Increment now key delta s)) !! key)
    = Some (fmt.Sprintf_d wrapped).
Proof.
  intros Hin Hscan Hd Hout wrapped.
  rewrite (Increment_scanned _ _ _ _ _ _ Hin Hscan).
  unfold result, store_after. cbn [fst snd data].
  rewrite lookup_insert_eq. cbn [fmap option_fmap option_map value].
  assert (Hw : int_add n delta = wrapped).
  { subst wrapped. apply Sscanf_d_is_int in Hscan.
    unfold is_int, int_add, int_wrap, int_min, int_max in *.
    destruct (0 <? delta) eqn:E.
    - replace (n + delta + 2 ^ 63)
        with (n + delta - 2 ^ 63 + 1 * 2 ^ 64) by lia.
      rewrite Z_mod_plus_full, Z.mod_small by lia. lia.
    - replace (n + delta + 2 ^ 63)
        with (n + delta + 2 ^ 63 + 2 ^ 64 + (-1) * 2 ^ 64) by lia.
      rewrite Z_mod_plus_full, Z.mod_small by lia. lia. }
  by rewrite Hw.
Qed.

(** X4.  A stored base-10 integer that does not fit an [int] is refused
    like text: [Increment] returns [0] with its error and the store is
    the store before the call. *)
Theorem Increment_rejects_out_of_range now key delta s entry n :
  data s !! key = Some entry →
  spec.parse_base10 (value entry) = Some n →
  ¬ is_int n →
  Increment now key delta s = ((0, Some err_non_numeric), s).
Proof.
  intros Hin Hn Hout. apply (Increment_not_scanned _ _ _ _ _ Hin).
  by apply (Sscanf_d_out_of_range _ n).
Qed.

(** X5.  [Increment] reads the integer at the head of the stored value:
    spaces in front of it are skipped and what follows its digits is not
    read.  When the stored value is spaces, then a base-10 integer [n]
    that fits an [int], then text that does not start with a digit, the
    call returns the [int] sum of [n] and [delta] with a nil error, and
    the stored value becomes the decimal string of the sum: the spaces
    and the text are gone. *)
Theorem Increment_reads_integer_prefix now key delta s entry k num rest n :
  data s !! key = Some entry →
  value entry = spaces k +:+ num +:+ rest →
  spec.parse_base10 num = Some n →
  is_int n →
  no_leading_digit rest = true →
  Increment now key delta s
  = ((int_add n delta, None),
     {| data := <[key := {| value := fmt.Sprintf_d (int_add n delta);
                            createdAt := createdAt entry;
                            expiresAt := expiresAt entry |}]> (data s) |}).
Proof.
  intros Hin Hv Hnum Hn Hrest.
  apply (Increment_scanned _ _ _ _ _ _ Hin).
  rewrite Hv, (Sscanf_d_numeral k num rest n Hnum Hrest).
  by case_decide.
Qed.

Lemma is_base10_padded (k : nat) (num rest : string) (n : Z) :
  spec.parse_base10 num = Some n →
  no_leading_digit rest = true →
  (0 < k)%nat ∨ rest ≠ ""%string →
  spec.is_base10 (spaces k +:+ num +:+ rest) = false.
Proof.
  unfold spec.is_base10, spec.parse_base10, no_leading_digit.
  rewrite !bytes_app, bytes_spaces. intros Hnum Hrest Hpad.
  destruct k as [|k].
  - destruct Hpad as [Hk|Hne]; [lia|]. cbn [replicate app].
    destruct rest as [|a rest]; [done|]. cbn [utf8.bytes] in *.
    apply negb_true_iff in Hrest.
    set (c := Z.of_N (Ascii.N_of_ascii a)) in *.
    destruct (utf8.bytes num) as [|b p]; [done|].
    cbn [app fmt.accept_sign] in *.
    destruct (fmt.is_sign b).
    + destruct p as [|d p]; [done|]. cbn [app].
      change (d :: p ++ c :: utf8.bytes rest)
        with ((d :: p) ++ c :: utf8.bytes rest).
      rewrite forallb_app. cbn [forallb]. rewrite Hrest.
      by rewrite andb_false_r.
    + change (b :: p ++ c :: utf8.bytes rest)
        with ((b :: p) ++ c :: utf8.bytes rest).
      rewrite forallb_app. cbn [forallb]. rewrite Hrest.
      by rewrite andb_false_r.
  - cbn [replicate app fmt.accept_sign].
    change (fmt.is_sign 32) with false. cbn iota. cbn [forallb].
    by change (fmt.is_digit 32) with false.
Qed.

(** Claim C3.  [Increment] does not refuse every stored value that is not
    a base-10 integer.  When the stored value is a base-10 integer [n]
    that fits an [int] with spaces in front of it or with text behind it
    that does not start with a digit (["12abc"], [" 12"]), the value is
    not a base-10 integer, and yet [Increment] returns the [int] sum of
    [n] and [delta] with a nil error and puts the decimal string of the
    sum in the place of the value: the call that the claim says fails
    with the store unchanged succeeds and changes the store. *)
Theorem Increment_not_refused now key delta s entry k num rest n :
  data s !! key = Some entry →
  value entry = spaces k +:+ num +:+ rest →
  spec.parse_base10 num = Some n →
  is_int n →
  no_leading_digit rest = true →
  (0 < k)%nat ∨ rest ≠ ""%string →
  spec.is_base10 (value entry) = false
  ∧ Increment now key delta s
    = ((int_add n delta, None),
       {| data := <[key := {| value := fmt.Sprintf_d (int_add n delta);
                              createdAt := createdAt entry;
                              expiresAt := expiresAt entry |}]> (data s) |})
  ∧ value <$> data (store_after (Increment now key delta s)) !! key
    ≠ Some (value entry).
Proof.
  intros Hin Hv Hnum Hn Hrest Hpad.
  assert (Hnot : spec.is_base10 (value entry) = false)
    by (rewrite Hv; by apply (is_base10_padded k num rest n)).
  assert (Hscan : fmt.Sscanf_d (value entry) = Some n).
  { rewrite Hv, (Sscanf_d_numeral k num rest n Hnum Hrest). by case_decide. }
  split; [done|]. rewrite (Increment_scanned _ _ _ _ _ _ Hin Hscan).
  split; [done|]. unfold store_after. cbn [snd data].
  rewrite lookup_insert_eq. cbn [fmap option_fmap option_map value].
  intros [= Heq]. unfold spec.is_base10 in Hnot.
  rewrite <- Heq, parse_base10_Sprintf_d in Hnot by apply int_add_is_int.
  done.
Qed.

End Counting.

(** ** Further properties: expiry and the cleanup loop *)

Section Expiry.

Implicit Types (s : StringStore) (key : string) (entry : stringEntry).
Implicit Types (now : time.Time) (delta : Z) (ticks : list Z).

Lemma cleanup_pass_lookup_due now s key :
  data (store_after (cleanup_pass now s)) !! key =
  match data s !! key with
  | Some entry => if due now entry then None else Some entry
  | None => None
  end.
Proof.
  unfold cleanup_pass, store_after, due. cbn [snd data].
  rewrite cleanup_fold_lookup.
  destruct (data s !! key) as [entry|] eqn:E; [|done].
  by destruct (negb (time.IsZero (expiresAt entry))
               && time.After now (expiresAt entry)).
Qed.

Lemma backgroundCleanup_cons now ticks s :
  backgroundCleanup (now :: ticks) s
  = backgroundCleanup ticks (store_after (cleanup_pass now s)).
Proof.
  cbn [backgroundCleanup]. unfold bind, store_after.
  by destruct (cleanup_pass now s) as [[] s1].
Qed.

(** After a run of the cleanup loop a key has its entry of before the run,
    unless the entry was due at one of the ticks. *)
Lemma backgroundCleanup_run_lookup ticks s key :
  data (store_after (backgroundCleanup ticks s)) !! key =
  match data s !! key with
  | Some entry =>
    if existsb (λ now, due now entry) ticks then None else Some entry
  | None => None
  end.
Proof.
  revert s. induction ticks as [|now ticks IH]; intros s.
  - cbn. by destruct (data s !! key).
  - rewrite backgroundCleanup_cons, IH, cleanup_pass_lookup_due.
    cbn [existsb]. destruct (data s !! key) as [entry|]; [|done].
    by destruct (due now entry).
Qed.

Lemma Keys_elem s key : key ∈ result (Keys s) ↔ is_Some (data s !! key).
Proof.
  unfold Keys, result. cbn [fst].
  by destruct (Keys_fold (data s)) as (H & _ & _).
Qed.

(** X6.  An entry whose deadline has passed and that no cleanup pass has
    removed is hidden from [Get] only: [Keys] lists its key, [Delete]
    returns true for it, and [Increment] adds to its integer and returns a
    nil error, after which [Get] still does not find the key. *)
Theorem expired_entry_still_in_use now key delta s entry n :
  data s !! key = Some entry →
  expiresAt entry < now →
  fmt.Sscanf_d (value entry) = Some n →
  result (Get now key s) = (""%string, false)
  ∧ key ∈ result (Keys s)
  ∧ result (Delete key s) = true
  ∧ result (Increment now key delta s) = (int_add n delta, None)
  ∧ result (Get now key (store_after (Increment now key delta s)))
    = (""%string, false).
Proof.
  intros Hin Hexp Hscan.
  assert (Hafter : time.After now (expiresAt entry) = true)
    by (unfold time.After; lia).
  rewrite (Increment_scanned _ _ _ _ _ _ Hin Hscan), Delete_eq, !Get_eq, Hin.
  unfold result, store_after. cbn [fst snd data].
  rewrite lookup_insert_eq, Hafter. cbn [expiresAt]. rewrite Hafter.
  repeat split. apply Keys_elem. by rewrite Hin.
Qed.

(** X7.  [Increment] does not move the deadline of a key: after [Set]
    with a value that scans as [n] and an [Increment] by [delta], [Get]
    returns the decimal string of the sum up to the deadline that [Set]
    gave, and nothing after it. *)
Theorem Increment_keeps_deadline now1 now2 now now' key v ttl delta s n :
  fmt.Sscanf_d v = Some n →
  result (Get now' key
            (store_after (Increment now key delta
               (store_after (Set_ now1 now2 key v ttl s)))))
  = if now2 + ttl <? now' then (""%string, false)
    else (fmt.Sprintf_d (int_add n delta), true).
Proof.
  intros Hscan. rewrite Set_eq. unfold store_after at 2. cbn [snd].
  erewrite Increment_scanned; cycle 1.
  { cbn [data]. apply lookup_insert_eq. }
  { done. }
  rewrite Get_eq. unfold result, store_after. cbn [fst snd data].
  rewrite lookup_insert_eq. by cbn [expiresAt value].
Qed.

(** X8.  After a run of the cleanup loop over any ticks, [Keys] lists
    exactly the keys whose entry was due at none of the ticks, and every
    entry left in the store is the entry of before the run. *)
Theorem backgroundCleanup_keeps_exactly_not_due ticks s :
  let s' := store_after (backgroundCleanup ticks s) in
  (∀ key, key ∈ result (Keys s')
          ↔ ∃ entry, data s !! key = Some entry
                     ∧ existsb (λ now, due now entry) ticks = false)
  ∧ (∀ key entry, data s' !! key = Some entry → data s !! key = Some entry).
Proof.
  cbv zeta. split.
  - intros key. rewrite Keys_elem, backgroundCleanup_run_lookup.
    destruct (data s !! key) as [entry|].
    + destruct (existsb (λ now, due now entry) ticks) eqn:E.
      * split; [by intros [? ?]|]. intros (e & [= <-] & He). congruence.
      * split; [|by eexists]. intros _. by exists entry.
    + split; [by intros [? ?]|]. by intros (e & ? & _).
  - intros key entry. rewrite backgroundCleanup_run_lookup.
    destruct (data s !! key) as [e|]; [|done].
    by destruct (existsb (λ now, due now e) ticks).
Qed.

(** X9.  The cleanup loop does not change what [Get] answers: at a
    reading of the clock that is not before the ticks of a run, [Get] of
    any key returns after the run what it would return without it. *)
Theorem cleanup_invisible_to_Get ticks now' key s :
  Forall (λ now, now <= now') ticks →
  result (Get now' key (store_after (backgroundCleanup ticks s)))
  = result (Get now' key s).
Proof.
  intros Hticks. rewrite !Get_eq. unfold result. cbn [fst].
  rewrite backgroundCleanup_run_lookup.
  destruct (data s !! key) as [entry|]; [|done].
  destruct (existsb (λ now, due now entry) ticks) eqn:E; [|done].
  apply existsb_exists in E as (now & Hnow & Hdue).
  rewrite Forall_forall in Hticks. apply list_elem_of_In in Hnow.
  specialize (Hticks now Hnow).
  unfold due, time.After in *. apply andb_true_iff in Hdue as [_ Hdue].
  destruct (expiresAt entry <? now') eqn:E'; [done|lia].
Qed.

(** X10.  The entry that [Increment] makes for a key that was not in the
    map outlives the cleanup loop: after a run over any ticks the entry is
    in the store as [Increment] made it, and [Keys] lists its key. *)
Theorem Increment_created_never_swept now key delta ticks s :
  data s !! key = None →
  let s' := store_after (backgroundCleanup ticks
                           (store_after (Increment now key delta s))) in
  data s' !! key = Some {| value := fmt.Sprintf_d delta; createdAt := now;
                           expiresAt := time.zero |}
  ∧ key ∈ result (Keys s').
Proof.
  intros Habs s'.
  assert (H : data s' !! key
              = Some {| value := fmt.Sprintf_d delta; createdAt := now;
                        expiresAt := time.zero |}).
  { subst s'. rewrite backgroundCleanup_run_lookup, Increment_absent by done.
    unfold store_after. cbn [snd data]. rewrite lookup_insert_eq.
    replace (existsb _ ticks) with false; [done|].
    symmetry. induction ticks as [|t ticks IH]; [done|].
    cbn [existsb]. by rewrite <- IH. }
  split; [done|]. apply Keys_elem. by rewrite H.
Qed.

(** X11.  What [Increment] returns for a key whose deadline has passed
    depends on whether a cleanup pass has run: before the pass it adds to
    the stored integer, after the pass the key is gone and the count
    starts again from [delta]. *)
Theorem cleanup_restarts_counter now1 now2 now key v ttl delta s n :
  fmt.Sscanf_d v = Some n →
  now2 + ttl ≠ time.zero →
  now2 + ttl < now →
  let s1 := store_after (Set_ now1 now2 key v ttl s) in
  result (Increment now key delta s1) = (int_add n delta, None)
  ∧ result (Increment now key delta (store_after (cleanup_pass now s1)))
    = (delta, None).
Proof.
  intros Hscan Hnz Hlt s1.
  assert (Hin : data s1 !! key
                = Some {| value := v; createdAt := now1;
                          expiresAt := now2 + ttl |}).
  { subst s1. rewrite Set_eq. unfold store_after. cbn [snd data].
    apply lookup_insert_eq. }
  split.
  - by rewrite (Increment_scanned _ _ _ _ _ _ Hin Hscan).
  - rewrite Increment_absent; [done|].
    rewrite cleanup_pass_lookup_due, Hin.
    unfold due, time.IsZero, time.After, time.zero in *. cbn [expiresAt].
    destruct (now2 + ttl =? 0) eqn:E1; [lia|].
    destruct (now2 + ttl <? now) eqn:E2; [done|lia].
Qed.

End Expiry.

(** ** Further properties: how the methods compose *)

Section Composing.

Implicit Types (s : StringStore) (key : string) (entry : stringEntry).
Implicit Types (now : time.Time) (delta : Z).

Lemma Increment_by_outcome now key delta s :
  Increment now key delta s =
  (fst (Increment_outcome now delta (data s !! key)),
   match snd (Increment_outcome now delta (data s !! key)) with
   | Some entry => {| data := <[key := entry]> (data s) |}
   | None => s
   end).
Proof.
  unfold Increment_outcome.
  destruct (data s !! key) as [entry|] eqn:E.
  - destruct (fmt.Sscanf_d (value entry)) as [n|] eqn:En.
    + by rewrite (Increment_scanned _ _ _ _ _ _ E En).
    + by rewrite (Increment_not_scanned _ _ _ _ _ E En).
  - by rewrite Increment_absent.
Qed.

Lemma Keys_length s : length (result (Keys s)) = size (data s).
Proof.
  unfold Keys, result. cbn [fst].
  by destruct (Keys_fold (data s)) as (_ & _ & H).
Qed.

(** X12.  Making a key and deleting it again leaves no trace: for a key
    that is not in the map, [Delete] after [Set], and [Delete] after
    [Increment], return true and give back the store of before. *)
Theorem create_then_Delete_restores now1 now2 key v d delta s :
  data s !! key = None →
  Delete key (store_after (Set_ now1 now2 key v d s)) = (true, s)
  ∧ Delete key (store_after (Increment now1 key delta s)) = (true, s).
Proof.
  intros Habs. rewrite Set_eq, Increment_absent by done.
  unfold store_after. cbn [snd]. rewrite !Delete_eq. cbn [data].
  rewrite !lookup_insert_eq, !delete_insert_eq, !delete_id by done.
  by rewrite store_eta.
Qed.

(** X13.  [Set] forgets what was under the key: after a [Set], a
    [Delete] or an [Increment] of the key, a [Set] of the key gives the
    store that it gives without the earlier call. *)
Theorem Set_forgets_history now1 now2 now1' now2' key v v' d d' delta s :
  let set' := Set_ now1' now2' key v' d' in
  store_after (set' (store_after (Set_ now1 now2 key v d s)))
  = store_after (set' s)
  ∧ store_after (set' (store_after (Delete key s))) = store_after (set' s)
  ∧ store_after (set' (store_after (Increment now1 key delta s)))
    = store_after (set' s).
Proof.
  cbv zeta. rewrite !Set_eq. unfold store_after. cbn [snd data].
  split; [|split].
  - by rewrite insert_insert_eq.
  - rewrite Delete_eq. destruct (data s !! key); cbn [snd data]; [|done].
    by rewrite insert_delete_eq.
  - rewrite Increment_by_outcome. cbn [snd].
    destruct (snd (Increment_outcome now1 delta (data s !! key))); [|done].
    cbn [data]. by rewrite insert_insert_eq.
Qed.

(** X14.  The number of keys: [Set] and [Increment] add one key when the
    key was not in the map and none when it was, [Delete] removes one key
    when the key was in the map and none when it was not. *)
Theorem Keys_count now1 now2 key v d delta s :
  let count s := length (result (Keys s)) in
  let present := bool_decide (is_Some (data s !! key)) in
  count (store_after (Set_ now1 now2 key v d s))
  = (if present then count s else S (count s))
  ∧ count (store_after (Increment now1 key delta s))
    = (if present then count s else S (count s))
  ∧ count (store_after (Delete key s))
    = (if present then Nat.pred (count s) else count s).
Proof.
  cbv zeta beta. rewrite !Keys_length.
  rewrite Set_eq, Delete_eq, Increment_by_outcome.
  unfold store_after, Increment_outcome. cbn [snd data].
  destruct (data s !! key) as [entry|] eqn:E.
  - rewrite bool_decide_eq_true_2 by by eexists.
    assert (Hsome : is_Some (data s !! key)) by by eexists.
    split; [|split].
    + by rewrite map_size_insert_Some.
    + destruct (fmt.Sscanf_d (value entry)); cbn [snd data]; [|done].
      by rewrite map_size_insert_Some.
    + cbn [snd data]. by rewrite map_size_delete_Some.
  - rewrite bool_decide_eq_false_2 by by intros [? ?].
    cbn [snd data]. by rewrite !map_size_insert_None.
Qed.

(** X15.  Counters under different keys do not interfere.  Two
    [Increment] calls on different keys return the same results in either
    order, whatever the readings of the clock, and the two final stores
    have the same keys with the same values and the same [expiresAt].
    The [createdAt] of an entry that a call made is the reading of the
    clock of that call, so the stores are equal when both keys were in
    the map before. *)
Theorem Increment_commutes ta1 ta2 tb1 tb2 key1 key2 delta1 delta2 s :
  key1 ≠ key2 →
  let rA1 := Increment ta1 key1 delta1 s in
  let rA2 := Increment ta2 key2 delta2 (store_after rA1) in
  let rB2 := Increment tb1 key2 delta2 s in
  let rB1 := Increment tb2 key1 delta1 (store_after rB2) in
  result rA1 = result rB1
  ∧ result rA2 = result rB2
  ∧ (∀ key, (λ entry, (value entry, expiresAt entry))
              <$> data (store_after rA2) !! key
            = (λ entry, (value entry, expiresAt entry))
              <$> data (store_after rB1) !! key)
  ∧ (is_Some (data s !! key1) → is_Some (data s !! key2) →
     store_after rA2 = store_after rB1).
Proof.
  intros Hne. cbv zeta.
  assert (H12 : data (store_after (Increment ta1 key1 delta1 s)) !! key2
                = data s !! key2).
  { rewrite Increment_by_outcome. unfold store_after. cbn [snd].
    destruct (snd (Increment_outcome ta1 delta1 (data s !! key1)));
      [|done].
    cbn [data]. by rewrite lookup_insert_ne. }
  assert (H21 : data (store_after (Increment tb1 key2 delta2 s)) !! key1
                = data s !! key1).
  { rewrite Increment_by_outcome. unfold store_after. cbn [snd].
    destruct (snd (Increment_outcome tb1 delta2 (data s !! key2)));
      [|done].
    cbn [data]. by rewrite lookup_insert_ne. }
  rewrite (Increment_by_outcome ta2 key2 delta2 (store_after _)), H12.
  rewrite (Increment_by_outcome tb2 key1 delta1 (store_after _)), H21.
  rewrite !(Increment_by_outcome _ _ _ s).
  unfold result, store_after, Increment_outcome. cbn [fst snd].
  destruct (data s !! key1) as [e1|] eqn:E1;
    [destruct (fmt.Sscanf_d (value e1))|];
    (destruct (data s !! key2) as [e2|] eqn:E2;
       [destruct (fmt.Sscanf_d (value e2))|]);
    cbn [fst snd data];
    (split; [done|]); (split; [done|]);
    (split;
      [ intros key;
        destruct (decide (key = key1)) as [->|?];
          [|destruct (decide (key = key2)) as [->|?]];
        repeat first [ rewrite lookup_insert_eq
                     | rewrite lookup_insert_ne by done ];
        done
      | intros [? ?] [? ?]; try done; by rewrite insert_insert_ne ]).
Qed.

End Composing.

(** ** The further properties at concrete stores *)

Section MoreExamples.

Lemma is_int_small (z : Z) : - 1000 <= z <= 1000 → is_int z.
Proof. unfold is_int, int_min, int_max. lia. Qed.

Lemma Increment_accumulates_witness :
  is_int 5
  ∧ result (Increment t2024 "c" 5 NewStringStore) = (5, None)
  ∧ result (Increment (t2024 + 1) "c" 7
              (store_after (Increment t2024 "c" 5 NewStringStore)))
    = (12, None).
Proof.
  assert (H1 : is_int 5) by (apply is_int_small; lia).
  assert (H2 : result (Increment t2024 "c" 5 NewStringStore) = (5, None))
    by reflexivity.
  exact (conj H1 (conj H2
    (Increment_accumulates t2024 (t2024 + 1) "c" 5 7 NewStringStore 5 H1 H2))).
Defined.

Lemma Increment_then_back_witness :
  data counter !! "n"%string = Some (entry_of "10" t2024 (t2024 + hour))
  ∧ value (entry_of "10" t2024 (t2024 + hour)) = fmt.Sprintf_d 10
  ∧ is_int 10
  ∧ int_add 5 (-5) = 0
  ∧ Increment (t2024 + 2) "n" (-5)
      (store_after (Increment (t2024 + 1) "n" 5 counter))
    = ((10, None), counter).
Proof.
  assert (H1 : data counter !! "n"%string
               = Some (entry_of "10" t2024 (t2024 + hour))) by reflexivity.
  assert (H2 : value (entry_of "10" t2024 (t2024 + hour)) = fmt.Sprintf_d 10)
    by reflexivity.
  assert (H3 : is_int 10) by (apply is_int_small; lia).
  assert (H4 : int_add 5 (-5) = 0) by reflexivity.
  exact (conj H1 (conj H2 (conj H3 (conj H4
    (Increment_then_back (t2024 + 1) (t2024 + 2) "n" 5 (-5) counter
       _ 10 H1 H2 H3 H4))))).
Defined.

Lemma Increment_overflow_wraps_witness :
  let s := store_of [("n"%string,
                      entry_of "9223372036854775807" t2024 (t2024 + hour))] in
  data s !! "n"%string
  = Some (entry_of "9223372036854775807" t2024 (t2024 + hour))
  ∧ fmt.Sscanf_d "9223372036854775807" = Some 9223372036854775807
  ∧ is_int 1
  ∧ ¬ is_int (9223372036854775807 + 1)
  ∧ result (Increment (t2024 + 1) "n" 1 s) = (-9223372036854775808, None).
Proof.
  cbv zeta.
  set (s := store_of [("n"%string,
                       entry_of "9223372036854775807" t2024 (t2024 + hour))]).
  assert (H1 : data s !! "n"%string
               = Some (entry_of "9223372036854775807" t2024 (t2024 + hour)))
    by reflexivity.
  assert (H2 : fmt.Sscanf_d "9223372036854775807" = Some 9223372036854775807)
    by reflexivity.
  assert (H3 : is_int 1) by (apply is_int_small; lia).
  assert (H4 : ¬ is_int (9223372036854775807 + 1))
    by (unfold is_int, int_min, int_max; lia).
  exact (conj H1 (conj H2 (conj H3 (conj H4
    (proj1 (Increment_overflow_wraps (t2024 + 1) "n" 1 s _ _
              H1 H2 H3 H4)))))).
Defined.

Lemma Increment_rejects_out_of_range_witness :
  let s := store_of [("n"%string,
                      entry_of "9223372036854775808" t2024 (t2024 + hour))] in
  data s !! "n"%string
  = Some (entry_of "9223372036854775808" t2024 (t2024 + hour))
  ∧ spec.parse_base10 "9223372036854775808" = Some 9223372036854775808
  ∧ ¬ is_int 9223372036854775808
  ∧ Increment (t2024 + 1) "n" 1 s = ((0, Some err_non_numeric), s).
Proof.
  cbv zeta.
  set (s := store_of [("n"%string,
                       entry_of "9223372036854775808" t2024 (t2024 + hour))]).
  assert (H1 : data s !! "n"%string
               = Some (entry_of "9223372036854775808" t2024 (t2024 + hour)))
    by reflexivity.
  assert (H2 : spec.parse_base10 "9223372036854775808"
               = Some 9223372036854775808) by reflexivity.
  assert (H3 : ¬ is_int 9223372036854775808)
    by (unfold is_int, int_min, int_max; lia).
  exact (conj H1 (conj H2 (conj H3
    (Increment_rejects_out_of_range (t2024 + 1) "n" 1 s _ _ H1 H2 H3)))).
Defined.

Lemma Increment_reads_integer_prefix_witness :
  let s := store_of [("n"%string,
                      entry_of "  12abc" t2024 (t2024 + hour))] in
  data s !! "n"%string = Some (entry_of "  12abc" t2024 (t2024 + hour))
  ∧ "  12abc"%string = spaces 2 +:+ "12" +:+ "abc"
  ∧ spec.parse_base10 "12" = Some 12
  ∧ is_int 12
  ∧ no_leading_digit "abc" = true
  ∧ result (Increment (t2024 + 1) "n" 1 s) = (13, None)
  ∧ data (store_after (Increment (t2024 + 1) "n" 1 s)) !! "n"%string
    = Some (entry_of "13" t2024 (t2024 + hour)).
Proof.
  cbv zeta.
  set (s := store_of [("n"%string, entry_of "  12abc" t2024 (t2024 + hour))]).
  assert (H1 : data s !! "n"%string
               = Some (entry_of "  12abc" t2024 (t2024 + hour)))
    by reflexivity.
  assert (H2 : "  12abc"%string = spaces 2 +:+ "12" +:+ "abc") by reflexivity.
  assert (H3 : spec.parse_base10 "12" = Some 12) by reflexivity.
  assert (H4 : is_int 12) by (apply is_int_small; lia).
  assert (H5 : no_leading_digit "abc" = true) by reflexivity.
  pose proof (Increment_reads_integer_prefix (t2024 + 1) "n" 1 s _ 2 "12"
                "abc" 12 H1 H2 H3 H4 H5) as H.
  refine (conj H1 (conj H2 (conj H3 (conj H4 (conj H5 (conj _ _)))))).
  - exact (f_equal fst H).
  - exact (eq_trans (f_equal (λ r, data (snd r) !! "n"%string) H) eq_refl).
Defined.

Lemma expired_entry_still_in_use_witness :
  data counter !! "n"%string = Some (entry_of "10" t2024 (t2024 + hour))
  ∧ expiresAt (entry_of "10" t2024 (t2024 + hour)) < t2024 + 2 * hour
  ∧ fmt.Sscanf_d (value (entry_of "10" t2024 (t2024 + hour))) = Some 10
  ∧ result (Get (t2024 + 2 * hour) "n" counter) = (""%string, false)
  ∧ "n"%string ∈ result (Keys counter)
  ∧ result (Delete "n" counter) = true
  ∧ result (Increment (t2024 + 2 * hour) "n" 5 counter) = (int_add 10 5, None)
  ∧ result (Get (t2024 + 2 * hour) "n"
              (store_after (Increment (t2024 + 2 * hour) "n" 5 counter)))
    = (""%string, false).
Proof.
  assert (H1 : data counter !! "n"%string
               = Some (entry_of "10" t2024 (t2024 + hour))) by reflexivity.
  assert (H2 : expiresAt (entry_of "10" t2024 (t2024 + hour))
               < t2024 + 2 * hour) by reflexivity.
  assert (H3 : fmt.Sscanf_d (value (entry_of "10" t2024 (t2024 + hour)))
               = Some 10) by reflexivity.
  exact (conj H1 (conj H2 (conj H3
    (expired_entry_still_in_use (t2024 + 2 * hour) "n" 5 counter _ 10
       H1 H2 H3)))).
Defined.

Lemma Increment_keeps_deadline_witness :
  fmt.Sscanf_d "10" = Some 10
  ∧ result (Get (t2024 + hour + 1) "n"
              (store_after (Increment (t2024 + 1) "n" 5
                 (store_after (Set_ t2024 t2024 "n" "10" hour NewStringStore)))))
    = (""%string, false).
Proof.
  assert (H1 : fmt.Sscanf_d "10" = Some 10) by reflexivity.
  exact (conj H1
    (Increment_keeps_deadline t2024 t2024 (t2024 + 1) (t2024 + hour + 1)
       "n" "10" hour 5 NewStringStore 10 H1)).
Defined.

Lemma cleanup_invisible_to_Get_witness :
  Forall (λ now, now <= t2024 + 3 * hour) [t2024 + 2 * hour]
  ∧ result (Get (t2024 + 3 * hour) "n"
              (store_after (backgroundCleanup [t2024 + 2 * hour] counter)))
    = result (Get (t2024 + 3 * hour) "n" counter).
Proof.
  assert (H1 : Forall (λ now, now <= t2024 + 3 * hour) [t2024 + 2 * hour]).
  { constructor; [|constructor]. unfold hour. lia. }
  exact (conj H1
    (cleanup_invisible_to_Get [t2024 + 2 * hour] (t2024 + 3 * hour) "n"
       counter H1)).
Defined.

Lemma Increment_created_never_swept_witness :
  data NewStringStore !! "c"%string = None
  ∧ data (store_after (backgroundCleanup [t2024 + hour; t2024 + 2 * hour]
                         (store_after (Increment t2024 "c" 5 NewStringStore))))
      !! "c"%string
    = Some (entry_of "5" t2024 time.zero).
Proof.
  assert (H1 : data NewStringStore !! "c"%string = None) by reflexivity.
  exact (conj H1
    (proj1 (Increment_created_never_swept t2024 "c" 5
              [t2024 + hour; t2024 + 2 * hour] NewStringStore H1))).
Defined.

Lemma cleanup_restarts_counter_witness :
  fmt.Sscanf_d "10" = Some 10
  ∧ t2024 + hour ≠ time.zero
  ∧ t2024 + hour < t2024 + 2 * hour
  ∧ result (Increment (t2024 + 2 * hour) "n" 5
              (store_after (Set_ t2024 t2024 "n" "10" hour NewStringStore)))
    = (15, None)
  ∧ result (Increment (t2024 + 2 * hour) "n" 5
              (store_after (cleanup_pass (t2024 + 2 * hour)
                 (store_after (Set_ t2024 t2024 "n" "10" hour
                                 NewStringStore)))))
    = (5, None).
Proof.
  assert (H1 : fmt.Sscanf_d "10" = Some 10) by reflexivity.
  assert (H2 : t2024 + hour ≠ time.zero) by discriminate.
  assert (H3 : t2024 + hour < t2024 + 2 * hour) by reflexivity.
  exact (conj H1 (conj H2 (conj H3
    (cleanup_restarts_counter t2024 t2024 (t2024 + 2 * hour) "n" "10" hour 5
       NewStringStore 10 H1 H2 H3)))).
Defined.

Lemma create_then_Delete_restores_witness :
  data counter !! "k"%string = None
  ∧ Delete "k" (store_after (Set_ t2024 t2024 "k" "v" hour counter))
    = (true, counter)
  ∧ Delete "k" (store_after (Increment t2024 "k" 3 counter))
    = (true, counter).
Proof.
  assert (H1 : data counter !! "k"%string = None) by reflexivity.
  exact (conj H1
    (create_then_Delete_restores t2024 t2024 "k" "v" hour 3 counter H1)).
Defined.

Lemma Increment_commutes_witness :
  "a"%string ≠ "n"%string
  ∧ result (Increment (t2024 + 1) "a" 3 counter)
    = result (Increment (t2024 + 2) "a" 3
                (store_after (Increment (t2024 + 1) "n" 5 counter)))
  ∧ result (Increment (t2024 + 2) "n" 5
              (store_after (Increment (t2024 + 1) "a" 3 counter)))
    = result (Increment (t2024 + 1) "n" 5 counter).
Proof.
  assert (H1 : "a"%string ≠ "n"%string) by discriminate.
  destruct (Increment_commutes (t2024 + 1) (t2024 + 2) (t2024 + 1)
              (t2024 + 2) "a" "n" 3 5 counter H1) as (R1 & R2 & _).
  exact (conj H1 (conj R1 R2)).
Defined.

(** ["12abc"] is not a base-10 integer; [Increment] makes it ["13"]. *)
Lemma Increment_not_refused_witness :
  let s := store_of [("s"%string, entry_of "12abc" t2024 (t2024 + hour))] in
  data s !! "s"%string = Some (entry_of "12abc" t2024 (t2024 + hour))
  ∧ "12abc"%string = spaces 0 +:+ "12" +:+ "abc"
  ∧ spec.parse_base10 "12" = Some 12
  ∧ is_int 12
  ∧ no_leading_digit "abc" = true
  ∧ ((0 < 0)%nat ∨ "abc"%string ≠ ""%string)
  ∧ spec.is_base10 "12abc" = false
  ∧ result (Increment (t2024 + 1) "s" 1 s) = (13, None).
Proof.
  cbv zeta.
  set (s := store_of [("s"%string, entry_of "12abc" t2024 (t2024 + hour))]).
  assert (H1 : data s !! "s"%string
               = Some (entry_of "12abc" t2024 (t2024 + hour)))
    by reflexivity.
  assert (H2 : "12abc"%string = spaces 0 +:+ "12" +:+ "abc") by reflexivity.
  assert (H3 : spec.parse_base10 "12" = Some 12) by reflexivity.
  assert (H4 : is_int 12) by (apply is_int_small; lia).
  assert (H5 : no_leading_digit "abc" = true) by reflexivity.
  assert (H6 : (0 < 0)%nat ∨ "abc"%string ≠ ""%string)
    by (right; discriminate).
  destruct (Increment_not_refused (t2024 + 1) "s" 1 s _ 0 "12" "abc" 12
              H1 H2 H3 H4 H5 H6) as (N & I & _).
  exact (conj H1 (conj H2 (conj H3 (conj H4 (conj H5 (conj H6
    (conj N (f_equal fst I)))))))).
Defined.

End MoreExamples.
